(** * The double pendulum notebook ([double_pendulum.ipynb])

    A shallow embedding of the notebook's cells and the properties its
    specification states about them.

    Numbers.  The notebook computes in binary64 floating point; here every
    float is idealised as a real number of [R], so rounding, overflow and the
    non-finite values [inf] and [nan] are outside the model.  Python
    exceptions are inside it: a computation returns a [result].  Where
    rounding decides a property, the lines concerned are given a second time
    in binary64 itself (module [Binary64]). *)

From Stdlib Require Import Floats Reals Lra Lia List.
Import ListNotations.

Open Scope R_scope.

(** ** Exceptions and results *)

(** [ZeroDivisionError] is what Python raises for [a / b] on two Python floats
    when [b] is zero.  [InvalidParameter] is the validation error the
    specification names; no statement of the notebook raises it. *)
Inductive exn : Type :=
| ZeroDivisionError
| InvalidParameter.

Inductive result (A : Type) : Type :=
| Returned (a : A)
| Raised (e : exn).

Arguments Returned {A} a.
Arguments Raised {A} e.

Definition bind {A B : Type} (c : result A) (k : A -> result B) : result B :=
  match c with
  | Returned a => k a
  | Raised e => Raised e
  end.

Notation "x <- c ;; k" := (bind c (fun x => k))
  (at level 61, c at next level, right associativity).

(** [a / b] on Python floats: raises on a zero divisor. *)
Definition py_truediv (a b : R) : result R :=
  if Req_dec_T b 0 then Raised ZeroDivisionError else Returned (a / b).

(** [a / b] when an operand is a [numpy.float64]: never raises.  On a zero
    divisor numpy yields a non-finite value and a warning; [R] has no such
    value, so statements about these divisions are made through the divisor
    being nonzero. *)
Definition np_truediv (a b : R) : R := a / b.

(** ** Cell 2: the equations of motion *)

(** The state vector [y], an array of four floats. *)
Definition state : Type := (R * R * R * R)%type.

(** [y[k]], for the indices 0..3 of a state vector. *)
Definition item (k : nat) (y : state) : R :=
  let '(a0, a1, a2, a3) := y in
  match k with
  | 0%nat => a0
  | 1%nat => a1
  | 2%nat => a2
  | _ => a3
  end.

(** Line 59. *)
Definition denominator1 (L1 m1 m2 cos_delta : R) : R :=
  (m1 + m2) * L1 - m2 * L1 * cos_delta * cos_delta.

(** Line 60: [L2 / L1] divides two Python floats (the arguments are passed as
    the notebook defines them), the product with [denominator1] is a numpy
    float. *)
Definition denominator2 (L1 L2 denominator1 : R) : result R :=
  ratio <- py_truediv L2 L1 ;;
  Returned (ratio * denominator1).

(** Lines 54-75.  [np.sin] and [np.cos] return numpy floats, so both
    numerators and both denominators are numpy floats. *)
Definition double_pendulum_derivatives
    (y : state) (t : R) (L1 L2 m1 m2 g : R) : result state :=
  let '(theta1, z1, theta2, z2) := y in
  let cos_delta := cos (theta1 - theta2) in
  let sin_delta := sin (theta1 - theta2) in
  let denominator1 := denominator1 L1 m1 m2 cos_delta in
  denominator2 <- denominator2 L1 L2 denominator1 ;;
  let dydt0 := z1 in
  let dydt1 :=
    np_truediv (m2 * L1 * z1 * z1 * sin_delta * cos_delta +
                m2 * g * sin theta2 * cos_delta +
                m2 * L2 * z2 * z2 * sin_delta -
                (m1 + m2) * g * sin theta1) denominator1 in
  let dydt2 := z2 in
  let dydt3 :=
    np_truediv (- m2 * L2 * z2 * z2 * sin_delta * cos_delta +
                (m1 + m2) * (g * sin theta1 * cos_delta -
                L1 * z1 * z1 * sin_delta - g * sin theta2)) denominator2 in
  Returned (dydt0, dydt1, dydt2, dydt3).

(** The formulas of the specification (section 4.1), written as the
    specification writes them, over the reals. *)
Definition spec_derivatives
    (y : state) (L1 L2 m1 m2 g : R) : state :=
  let '(theta1, omega1, theta2, omega2) := y in
  let delta := theta1 - theta2 in
  let cos_delta := cos delta in
  let sin_delta := sin delta in
  let denom1 := (m1 + m2) * L1 - m2 * L1 * cos_delta ^ 2 in
  let denom2 := (L2 / L1) * denom1 in
  (omega1,
   (m2 * L1 * omega1 ^ 2 * sin_delta * cos_delta
    + m2 * g * sin theta2 * cos_delta
    + m2 * L2 * omega2 ^ 2 * sin_delta
    - (m1 + m2) * g * sin theta1) / denom1,
   omega2,
   (- m2 * L2 * omega2 ^ 2 * sin_delta * cos_delta
    + (m1 + m2) * (g * sin theta1 * cos_delta
                   - L1 * omega1 ^ 2 * sin_delta
                   - g * sin theta2)) / denom2).

(** ** Lines 59 and 60 in binary64 *)

Module Binary64.

(** Line 59 as the program computes it: every operation rounds to the nearest
    binary64 number.  [cos_delta] is the float [np.cos] has returned. *)
Definition denominator1 (L1 m1 m2 cos_delta : float) : float :=
  ((m1 + m2) * L1 - m2 * L1 * cos_delta * cos_delta)%float.

(** Line 60: Python's [L2 / L1] raises on [L1 == 0.0]. *)
Definition denominator2 (L1 L2 denominator1 : float) : result float :=
  if PrimFloat.eqb L1 0 then Raised ZeroDivisionError
  else Returned (L2 / L1 * denominator1)%float.

End Binary64.

(** ** Library routines the notebook calls *)

(** Modelled from the spec: the time-sample specification (start, end, count)
    of section 6, uniformly spaced samples from start to end.  The notebook
    calls [numpy.linspace(start, stop, num)], a library routine whose code is
    not part of the repository; with its default [endpoint=True] it computes
    [arange(0, num) * step + start] with [step = (stop - start) / (num - 1)]
    and then overwrites the last entry with [stop] when [num > 1]. *)
Definition linspace (start stop : R) (num : nat) : list R :=
  let div := (num - 1)%nat in
  let delta := stop - start in
  let step := delta / INR div in
  let y := map (fun i => INR i * step + start) (seq 0 num) in
  if (1 <? num)%nat then removelast y ++ [stop] else y.

(** [func(y, t, *args)] for the five-element [args] tuple of cell 4. *)
Definition params : Type := (R * R * R * R * R)%type.

Definition splat (func : state -> R -> R -> R -> R -> R -> R -> result state)
    (y : state) (t : R) (args : params) : result state :=
  let '(L1, L2, m1, m2, g) := args in func y t L1 L2 m1 m2 g.

Section Integrator.

(** The working storage of the step method (step size, tolerances,
    history), fixed at [w0] when a run starts. *)
Variable work : Type.

(** The step method: from the state at one time sample to the state at the
    next, by evaluations of the derivative function. *)
Variable step :
  (state -> R -> result state) -> work -> state -> R -> R ->
  result (work * state).

Variable w0 : work.

(** Modelled from the spec: the driving loop of the Trajectory Integrator
    (section 4.2), which advances the state from each time sample to the
    next and stops at the first exception. *)
Fixpoint advance (f : state -> R -> result state) (w : work) (y : state)
    (tk : R) (ts : list R) : result (list state) :=
  match ts with
  | [] => Returned []
  | tnext :: rest =>
      wy <- step f w y tk tnext ;;
      tr <- advance f (fst wy) (snd wy) tnext rest ;;
      Returned (snd wy :: tr)
  end.

(** Modelled from the spec: the Trajectory Integrator of section 4.2.  The
    notebook calls [scipy.integrate.odeint], a library routine whose code
    is not part of the repository.  As the specification words it: the
    first entry of the trajectory is the initial state, and the state is
    advanced from each time sample to the next with a numerical step
    method; an exception of the derivative function ends the run.  The
    specification gives the sequence a first element; on an empty sequence
    the model returns the empty trajectory. *)
Definition odeint {A : Type} (func : state -> R -> A -> result state)
    (y0 : state) (t : list R) (args : A) : result (list state) :=
  match t with
  | [] => Returned []
  | t0 :: ts =>
      tr <- advance (fun y s => func y s args) w0 y0 t0 ts ;;
      Returned (y0 :: tr)
  end.

End Integrator.

Arguments advance {work} step f w y tk ts.
Arguments odeint {work} step w0 {A} func y0 t args.




(** A step method returns whenever the derivative function does. *)
Definition step_total {work : Type}
    (step : (state -> R -> result state) -> work -> state -> R -> R ->
            result (work * state)) : Prop :=
  forall f : state -> R -> result state,
    (forall y s, exists v, f y s = Returned v) ->
    forall w y a b, exists wy, step f w y a b = Returned wy.

(** Arithmetic on state vectors. *)
Definition vadd (u v : state) : state :=
  let '(u0, u1, u2, u3) := u in
  let '(v0, v1, v2, v3) := v in
  (u0 + v0, u1 + v1, u2 + v2, u3 + v3).

Definition vscale (c : R) (v : state) : state :=
  let '(v0, v1, v2, v3) := v in (c * v0, c * v1, c * v2, c * v3).

(** Modelled from the spec: "a fixed 4th-order Runge-Kutta step per requested
    sample", one of the step methods section 4.2 accepts and the one the
    README names; it keeps no working storage. *)
Definition rk4_step (f : state -> R -> result state) (w : unit) (y : state)
    (t t' : R) : result (unit * state) :=
  let h := t' - t in
  k1 <- f y t ;;
  k2 <- f (vadd y (vscale (h / 2) k1)) (t + h / 2) ;;
  k3 <- f (vadd y (vscale (h / 2) k2)) (t + h / 2) ;;
  k4 <- f (vadd y (vscale h k3)) (t + h) ;;
  Returned (w, vadd y (vscale (h / 6)
                  (vadd k1 (vadd (vscale 2 k2) (vadd (vscale 2 k3) k4))))).

(** ** Cell 5: Cartesian coordinates *)

(** Elementwise [a + b] and [a - b] on two arrays of one shape. *)
Definition np_add (a b : list R) : list R :=
  map (fun p => fst p + snd p) (combine a b).

Definition np_sub (a b : list R) : list R :=
  map (fun p => fst p - snd p) (combine a b).

Section Cell5.

Variables L1 L2 : R.

(** The trajectory arrays returned by the two [odeint] calls, one row per
    time sample. *)
Variables sol sol_small : list state.

(** [sol[:, 0]] and [sol[:, 2]], and the same columns of [sol_small]. *)
Definition theta1 : list R := map (item 0) sol.
Definition theta2 : list R := map (item 2) sol.
Definition theta1_small : list R := map (item 0) sol_small.
Definition theta2_small : list R := map (item 2) sol_small.

Definition x1 : list R := map (fun a => L1 * sin a) theta1.
Definition y1 : list R := map (fun a => - L1 * cos a) theta1.
Definition x2 : list R := np_add x1 (map (fun a => L2 * sin a) theta2).
Definition y2 : list R := np_sub y1 (map (fun a => L2 * cos a) theta2).

Definition x1_small : list R := map (fun a => L1 * sin a) theta1_small.
Definition y1_small : list R := map (fun a => - L1 * cos a) theta1_small.
Definition x2_small : list R :=
  np_add x1_small (map (fun a => L2 * sin a) theta2_small).
Definition y2_small : list R :=
  np_sub y1_small (map (fun a => L2 * cos a) theta2_small).

End Cell5.

(** The projection of one state as the specification words it (section 4.3):
    the position of mass 1, then the position of mass 2. *)
Definition spec_projection (L1 L2 : R) (y : state) : (R * R) * (R * R) :=
  let mass1 := (L1 * sin (item 0 y), - L1 * cos (item 0 y)) in
  let mass2 := (fst mass1 + L2 * sin (item 2 y),
                snd mass1 + - L2 * cos (item 2 y)) in
  (mass1, mass2).

(** ** Cells 3 and 4: parameters, initial conditions, the two runs *)

Module Notebook.

Definition L1 : R := 1.0.
Definition L2 : R := 1.0.
Definition m1 : R := 1.0.
Definition m2 : R := 1.0.
Definition g : R := 9.81.

Definition theta1_0 : R := PI / 2.
Definition theta2_0 : R := PI / 4.
Definition z1_0 : R := 0.0.
Definition z2_0 : R := 0.0.

Definition theta1_0_small : R := theta1_0.
Definition theta2_0_small : R := theta2_0 + 1e-9.

Definition t : list R := linspace 0 100 2000.

Definition y0 : state := (theta1_0, z1_0, theta2_0, z2_0).
Definition y0_small : state := (theta1_0_small, z1_0, theta2_0_small, z2_0).

Definition args : params := (L1, L2, m1, m2, g).

Section Cell4.

Context {work : Type}.
Variable step :
  (state -> R -> result state) -> work -> state -> R -> R ->
  result (work * state).
Variable w0 : work.

Definition sol : result (list state) :=
  odeint step w0 (splat double_pendulum_derivatives) y0 t args.

Definition sol_small : result (list state) :=
  odeint step w0 (splat double_pendulum_derivatives) y0_small t args.

End Cell4.

End Notebook.

(** ** Cell 6: the animation *)

(** [ax.set_xlim(-2, 2)] and [ax.set_ylim(-2, 2)]: the window that is drawn. *)
Definition xlim : R * R := (-2, 2).
Definition ylim : R * R := (-2, 2).

(** The text of [time_text]: empty, or [time_template % seconds].  The digits
    the format prints are not modelled, the number it is given is. *)
Inductive label : Type :=
| NoText
| TimeText (seconds : R).

(** What the three artists hold: the [(xdata, ydata)] of each line and the
    text of the time stamp.  [animate] and [init] change them in place. *)
Record artists : Type := mkArtists {
  line1 : list R * list R;
  line2 : list R * list R;
  time_text : label
}.

(** [a[i]] on an array for a frame number [i >= 0]; [None] stands for the
    [IndexError] of an index past the end. *)
Definition getitem (a : list R) (i : nat) : option R := nth_error a i.

(** Lines 231-235. *)
Definition init (a : artists) : artists :=
  mkArtists ([], []) ([], []) NoText.

Section Cell6.

Variables L1 L2 : R.
Variables sol sol_small : list state.
Variable t : list R.

(** Lines 238-251.  The result pairs the artists as the call leaves them with
    [Some tt] when it returns and [None] when an index raises; the lookups
    and the three updates happen in the order of the source, so a failing
    lookup keeps the updates made before it. *)
Definition animate (i : nat) (a : artists) : artists * option unit :=
  match getitem (x1 L1 sol) i, getitem (x2 L1 L2 sol) i,
        getitem (y1 L1 sol) i, getitem (y2 L1 L2 sol) i with
  | Some x1_i, Some x2_i, Some y1_i, Some y2_i =>
      let thisx1 := [0; x1_i; x2_i] in
      let thisy1 := [0; y1_i; y2_i] in
      let a := mkArtists (thisx1, thisy1) (line2 a) (time_text a) in
      match getitem (x1_small L1 sol_small) i,
            getitem (x2_small L1 L2 sol_small) i,
            getitem (y1_small L1 sol_small) i,
            getitem (y2_small L1 L2 sol_small) i with
      | Some x1s_i, Some x2s_i, Some y1s_i, Some y2s_i =>
          let thisx2 := [0; x1s_i; x2s_i] in
          let thisy2 := [0; y1s_i; y2s_i] in
          let a := mkArtists (line1 a) (thisx2, thisy2) (time_text a) in
          match getitem t i with
          | Some t_i =>
              (mkArtists (line1 a) (line2 a) (TimeText t_i), Some tt)
          | None => (a, None)
          end
      | _, _, _, _ => (a, None)
      end
  | _, _, _, _ => (a, None)
  end.


End Cell6.

(** * Properties *)

(** ** The derivative function *)

Lemma py_truediv_nonzero (a b : R) :
  b <> 0 -> py_truediv a b = Returned (a / b).
Proof.
  intros Hb. unfold py_truediv.
  destruct (Req_dec_T b 0) as [E | _]; [contradiction | reflexivity].
Qed.

Lemma py_truediv_zero (a : R) : py_truediv a 0 = Raised ZeroDivisionError.
Proof.
  unfold py_truediv.
  destruct (Req_dec_T 0 0) as [_ | N]; [reflexivity | now elim N].
Qed.

Lemma denominator2_nonzero (L1 L2 d : R) :
  L1 <> 0 -> denominator2 L1 L2 d = Returned (L2 / L1 * d).
Proof.
  intros H. unfold denominator2. now rewrite (py_truediv_nonzero _ _ H).
Qed.

Lemma denominator2_zero (L2 d : R) :
  denominator2 0 L2 d = Raised ZeroDivisionError.
Proof. unfold denominator2. now rewrite py_truediv_zero. Qed.

(** With [L1] nonzero the function returns the formulas of the
    specification. *)
Lemma derivatives_returned (y : state) (t L1 L2 m1 m2 g : R) :
  L1 <> 0 ->
  double_pendulum_derivatives y t L1 L2 m1 m2 g =
  Returned (spec_derivatives y L1 L2 m1 m2 g).
Proof.
  intros H. destruct y as [[[th1 w1] th2] w2].
  unfold double_pendulum_derivatives, spec_derivatives.
  rewrite (denominator2_nonzero _ _ _ H). cbn [bind].
  unfold np_truediv, denominator1.
  apply f_equal.
  apply f_equal2;
    [apply f_equal2; [apply f_equal2; [reflexivity |] | reflexivity] |];
    unfold Rdiv; (apply f_equal2; [ring | apply f_equal; ring]).
Qed.

(** With [L1] zero the division [L2 / L1] raises before any component of the
    result is computed. *)
Lemma derivatives_raised (y : state) (t L2 m1 m2 g : R) :
  double_pendulum_derivatives y t 0 L2 m1 m2 g = Raised ZeroDivisionError.
Proof.
  destruct y as [[[th1 w1] th2] w2].
  unfold double_pendulum_derivatives.
  now rewrite denominator2_zero.
Qed.

Lemma derivatives_total (y : state) (t L1 L2 m1 m2 g : R) :
  L1 <> 0 ->
  exists v, double_pendulum_derivatives y t L1 L2 m1 m2 g = Returned v.
Proof. intros H. eexists. now apply derivatives_returned. Qed.

(** C1, as amended.  For every state vector, every time value and all
    parameters with [L1] nonzero, the derivative function returns exactly the
    4-tuple of the specification's formulas. *)
Theorem derivatives_match_spec (y : state) (t L1 L2 m1 m2 g : R)
    (HL1 : L1 <> 0) :
  double_pendulum_derivatives y t L1 L2 m1 m2 g =
  Returned (spec_derivatives y L1 L2 m1 m2 g).
Proof. now apply derivatives_returned. Qed.

Lemma derivatives_match_spec_witness :
  Notebook.L1 <> 0 /\
  double_pendulum_derivatives Notebook.y0 0
    Notebook.L1 Notebook.L2 Notebook.m1 Notebook.m2 Notebook.g =
  Returned (spec_derivatives Notebook.y0
    Notebook.L1 Notebook.L2 Notebook.m1 Notebook.m2 Notebook.g).
Proof.
  assert (H : Notebook.L1 <> 0) by (unfold Notebook.L1; lra).
  split; [exact H | exact (derivatives_match_spec _ _ _ _ _ _ _ H)].
Defined.

(** C1 as stated fails at [L1 = 0]: the call raises [ZeroDivisionError] and
    returns no tuple. *)
Lemma derivatives_zero_L1_counterexample :
  double_pendulum_derivatives (PI / 2, 0, PI / 4, 0) 0 0 1 1 1 9.81 =
    Raised ZeroDivisionError /\
  double_pendulum_derivatives (PI / 2, 0, PI / 4, 0) 0 0 1 1 1 9.81 <>
    Returned (spec_derivatives (PI / 2, 0, PI / 4, 0) 0 1 1 1 9.81).
Proof.
  rewrite derivatives_raised. split; [reflexivity | discriminate].
Qed.

(** C8.  The time argument has no influence: at any two times the derivative
    function gives the same outcome for the same state and parameters. *)
Theorem derivatives_time_invariant (y : state) (t t' L1 L2 m1 m2 g : R) :
  double_pendulum_derivatives y t L1 L2 m1 m2 g =
  double_pendulum_derivatives y t' L1 L2 m1 m2 g.
Proof. reflexivity. Qed.

(** ** The denominators *)

Lemma cos_sqr_le_1 (x : R) : cos x * cos x <= 1.
Proof. pose proof (COS_bound x) as [Hl Hu]. nra. Qed.

Lemma denominator1_sin (L1 m1 m2 x : R) :
  denominator1 L1 m1 m2 (cos x) = L1 * (m1 + m2 * sin x ^ 2).
Proof.
  unfold denominator1.
  pose proof (sin2_cos2 x) as H. unfold Rsqr in H.
  replace (m2 * L1 * cos x * cos x) with (m2 * L1 * (cos x * cos x)) by ring.
  replace (cos x * cos x) with (1 - sin x * sin x) by lra. ring.
Qed.

Lemma denominator1_zero_iff (L1 m1 m2 c : R) :
  m2 * L1 <> 0 ->
  denominator1 L1 m1 m2 c = 0 <-> c ^ 2 = (m1 + m2) * L1 / (m2 * L1).
Proof.
  intros Hq. unfold denominator1. split; intros H.
  - apply (Rmult_eq_reg_r (m2 * L1)); [| exact Hq].
    unfold Rdiv. rewrite Rmult_assoc, Rinv_l, Rmult_1_r by exact Hq. lra.
  - apply (f_equal (fun r => r * (m2 * L1))) in H.
    unfold Rdiv in H. rewrite Rmult_assoc, Rinv_l, Rmult_1_r in H by exact Hq.
    lra.
Qed.

(** C3.  For the canonical parameters of the notebook (all lengths and masses
    1) and every state, [denominator1] and [denominator2] are nonzero, so
    neither division by them divides by zero; and for parameters in general
    (where the quotient below is defined) [denominator1] vanishes exactly
    when [cos_delta ^ 2 = (m1 + m2) * L1 / (m2 * L1)]. *)
Theorem denominators_canonical_singular (y : state) (L1 m1 m2 : R)
    (Hq : m2 * L1 <> 0) :
  let cos_delta := cos (item 0 y - item 2 y) in
  let d1 := denominator1 Notebook.L1 Notebook.m1 Notebook.m2 cos_delta in
  d1 <> 0 /\
  (exists d2, denominator2 Notebook.L1 Notebook.L2 d1 = Returned d2 /\ d2 <> 0) /\
  (forall t g, exists v,
     double_pendulum_derivatives y t
       Notebook.L1 Notebook.L2 Notebook.m1 Notebook.m2 g = Returned v) /\
  (denominator1 L1 m1 m2 cos_delta = 0 <->
   cos_delta ^ 2 = (m1 + m2) * L1 / (m2 * L1)).
Proof.
  intros cos_delta d1.
  assert (Hd1 : d1 >= 1).
  { unfold d1, denominator1, Notebook.L1, Notebook.m1, Notebook.m2.
    pose proof (cos_sqr_le_1 (item 0 y - item 2 y)) as Hc.
    fold cos_delta in Hc. lra. }
  split; [lra |]. split.
  - exists (Notebook.L2 / Notebook.L1 * d1). split.
    + apply denominator2_nonzero. unfold Notebook.L1. lra.
    + unfold Notebook.L1, Notebook.L2. lra.
  - split; [| now apply denominator1_zero_iff].
    intros t g. apply derivatives_total. unfold Notebook.L1. lra.
Qed.

Lemma denominators_canonical_singular_witness :
  2 * 1 <> 0 /\
  (denominator1 1 (-1) 2 (cos (item 0 (PI / 4, 0, 0, 0) - item 2 (PI / 4, 0, 0, 0))) = 0 <->
   cos (item 0 (PI / 4, 0, 0, 0) - item 2 (PI / 4, 0, 0, 0)) ^ 2 =
   (-1 + 2) * 1 / (2 * 1)).
Proof.
  assert (H : 2 * 1 <> 0) by lra.
  split; [exact H |].
  exact (proj2 (proj2 (proj2
    (denominators_canonical_singular (PI / 4, 0, 0, 0) 1 (-1) 2 H)))).
Defined.

(** The singular configuration is met outside the positive parameters: with
    [m1 = -1], [m2 = 2], [L1 = 1] and [theta1 - theta2 = PI / 4] the first
    denominator is zero. *)
Lemma denominator1_singular_example :
  denominator1 1 (-1) 2 (cos (PI / 4 - 0)) = 0.
Proof.
  rewrite Rminus_0_r, cos_PI4. unfold denominator1.
  assert (Hs : sqrt 2 * sqrt 2 = 2) by (apply sqrt_sqrt; lra).
  assert (Hn : sqrt 2 <> 0) by (intros E; rewrite E in Hs; lra).
  field_simplify; [| exact Hn]. rewrite <- Rsqr_pow2. unfold Rsqr.
  rewrite Hs. lra.
Qed.

(** C4, as amended.  In exact real arithmetic, for all positive [L1], [m1],
    [m2] and every state,
    [denominator1 = L1 * (m1 + m2 * sin_delta ^ 2) >= m1 * L1 > 0]; with [L2]
    positive too, [L2 / L1] is computed, [denominator2] is positive and the
    derivative function returns: the equations of motion have no singular
    configuration for positive parameters.  (The binary64 evaluation of line
    59 does not inherit this, see the counterexample below.) *)
Theorem denominators_positive (y : state) (L1 L2 m1 m2 : R)
    (HL1 : 0 < L1) (Hm1 : 0 < m1) (Hm2 : 0 < m2) :
  let delta := item 0 y - item 2 y in
  let d1 := denominator1 L1 m1 m2 (cos delta) in
  d1 = L1 * (m1 + m2 * sin delta ^ 2) /\
  d1 >= m1 * L1 /\
  m1 * L1 > 0 /\
  (0 < L2 ->
   (exists d2, denominator2 L1 L2 d1 = Returned d2 /\ d2 > 0) /\
   (forall t g, exists v,
      double_pendulum_derivatives y t L1 L2 m1 m2 g = Returned v)).
Proof.
  intros delta d1.
  assert (Hd : d1 = L1 * (m1 + m2 * sin delta ^ 2))
    by apply denominator1_sin.
  assert (Hs : 0 <= sin delta ^ 2) by (simpl; nra).
  assert (Hp : m1 * L1 > 0) by nra.
  assert (Hq : 0 <= L1 * (m2 * sin delta ^ 2))
    by (apply Rmult_le_pos; [lra | apply Rmult_le_pos; lra]).
  assert (Hge : d1 >= m1 * L1) by lra.
  repeat split; try assumption.
  - exists (L2 / L1 * d1). split.
    + apply denominator2_nonzero. lra.
    + apply Rmult_lt_0_compat; [apply Rdiv_lt_0_compat; assumption | lra].
  - intros t g. apply derivatives_total. lra.
Qed.

Lemma denominators_positive_witness :
  0 < 1 /\ 0 < 2 /\ 0 < 3 /\
  denominator1 1 2 3 (cos (item 0 Notebook.y0 - item 2 Notebook.y0)) =
  1 * (2 + 3 * sin (item 0 Notebook.y0 - item 2 Notebook.y0) ^ 2).
Proof.
  assert (H1 : 0 < 1) by lra.
  assert (H2 : 0 < 2) by lra.
  assert (H3 : 0 < 3) by lra.
  repeat (split; [assumption |]).
  exact (proj1 (denominators_positive Notebook.y0 1 1 2 3 H1 H2 H3)).
Defined.

(** C4 as stated fails in binary64.  With the positive parameters
    [L1 = m2 = 1] and [m1 = 2^-60] and a state with [theta1 = theta2] (so
    that [theta1 - theta2] is [0.0] and [np.cos] returns [1.0]), the sum
    [m1 + m2] rounds to [m2]: line 59 gives [denominator1 = 0.0], below
    [m1 * L1], line 60 gives [denominator2 = 0.0], and a division by either
    is a division by zero. *)
Lemma denominator1_absorbed_counterexample :
  PrimFloat.ltb 0 1 = true /\
  PrimFloat.ltb 0 0x1p-60 = true /\
  Binary64.denominator1 1 0x1p-60 1 1 = 0%float /\
  PrimFloat.leb (0x1p-60 * 1) (Binary64.denominator1 1 0x1p-60 1 1) = false /\
  Binary64.denominator2 1 1 (Binary64.denominator1 1 0x1p-60 1 1) =
    Returned 0%float /\
  (1 / Binary64.denominator1 1 0x1p-60 1 1)%float = infinity.
Proof. repeat split; reflexivity. Qed.

(** ** The time grid *)

Lemma linspace_S (start stop : R) (k : nat) :
  (1 <= k)%nat ->
  linspace start stop (S k) =
  map (fun i => INR i * ((stop - start) / INR k) + start) (seq 0 k) ++ [stop].
Proof.
  intros Hk. unfold linspace.
  replace (S k - 1)%nat with k by lia.
  replace (1 <? S k)%nat with true by (symmetry; apply Nat.ltb_lt; lia).
  rewrite seq_S, map_app. simpl map at 2.
  now rewrite removelast_last.
Qed.

Lemma linspace_length (start stop : R) (num : nat) :
  length (linspace start stop num) = num.
Proof.
  destruct num as [| k]; [reflexivity |].
  destruct k as [| k]; [reflexivity |].
  rewrite linspace_S by lia.
  rewrite length_app, length_map, length_seq. simpl. lia.
Qed.

(** Every entry lies on the line through [start] and [stop]; for the last
    entry this is the value [stop] written over it. *)
Lemma linspace_nth (start stop : R) (k i : nat) :
  (1 <= k)%nat -> (i <= k)%nat ->
  nth i (linspace start stop (S k)) 0 =
  INR i * ((stop - start) / INR k) + start.
Proof.
  intros Hk Hi. rewrite linspace_S by exact Hk.
  set (f := fun i => INR i * ((stop - start) / INR k) + start).
  destruct (Nat.eq_dec i k) as [E | N].
  - subst i. rewrite app_nth2; rewrite length_map, length_seq; [| lia].
    rewrite Nat.sub_diag. simpl nth.
    assert (HK : INR k <> 0) by (apply not_0_INR; lia).
    field. exact HK.
  - rewrite app_nth1 by (rewrite length_map, length_seq; lia).
    rewrite (nth_indep _ 0 (f 0%nat))
      by (rewrite length_map, length_seq; lia).
    rewrite map_nth, seq_nth by lia. reflexivity.
Qed.

Lemma linspace_increasing (start stop : R) (k i j : nat) :
  start < stop -> (1 <= k)%nat -> (i < j <= k)%nat ->
  nth i (linspace start stop (S k)) 0 < nth j (linspace start stop (S k)) 0.
Proof.
  intros Hlt Hk [Hij Hj].
  rewrite !linspace_nth by lia.
  assert (HK : 0 < INR k) by (apply lt_0_INR; lia).
  assert (Hstep : 0 < (stop - start) / INR k)
    by (apply Rdiv_lt_0_compat; lra).
  pose proof (lt_INR _ _ Hij) as Hinr.
  nra.
Qed.

Lemma linspace_spacing (start stop : R) (k i : nat) :
  (1 <= k)%nat -> (i < k)%nat ->
  nth (S i) (linspace start stop (S k)) 0 - nth i (linspace start stop (S k)) 0
  = (stop - start) / INR k.
Proof.
  intros Hk Hi. rewrite !linspace_nth by lia. rewrite S_INR. ring.
Qed.

(** C10.  The two runs of cell 4 differ in one initial angle only: [theta2]
    is offset by exactly [1e-9], [theta1] is the same, both start with zero
    angular velocities; both runs are given the same derivative function,
    parameters and time grid, and that grid has 2000 uniformly spaced,
    strictly increasing values, the first 0 (the initial time) and the last
    100. *)
Theorem two_runs_one_grid :
  Notebook.y0_small =
    (item 0 Notebook.y0, item 1 Notebook.y0,
     item 2 Notebook.y0 + 1e-9, item 3 Notebook.y0) /\
  (item 1 Notebook.y0 = 0 /\ item 3 Notebook.y0 = 0) /\
  (forall (work : Type) step (w0 : work),
     Notebook.sol step w0 =
       odeint step w0 (splat double_pendulum_derivatives)
         Notebook.y0 Notebook.t Notebook.args /\
     Notebook.sol_small step w0 =
       odeint step w0 (splat double_pendulum_derivatives)
         Notebook.y0_small Notebook.t Notebook.args) /\
  length Notebook.t = 2000%nat /\
  nth 0 Notebook.t 0 = 0 /\
  nth 1999 Notebook.t 0 = 100 /\
  (forall i, (i < 1999)%nat ->
     nth (S i) Notebook.t 0 - nth i Notebook.t 0 = 100 / 1999) /\
  (forall i j, (i < j)%nat -> (j < 2000)%nat ->
     nth i Notebook.t 0 < nth j Notebook.t 0).
Proof.
  assert (H1999 : INR 1999 = 1999) by (rewrite INR_IZR_INZ; reflexivity).
  split; [reflexivity |].
  split; [cbv [item Notebook.y0 Notebook.z1_0 Notebook.z2_0]; lra |].
  split; [intros work step w0; split; reflexivity |].
  unfold Notebook.t.
  split; [apply linspace_length |].
  split; [rewrite (linspace_nth 0 100 1999 0) by lia; simpl INR; lra |].
  split; [rewrite (linspace_nth 0 100 1999 1999) by lia; rewrite H1999; lra |].
  split.
  - intros i Hi. rewrite (linspace_spacing 0 100 1999 i) by lia.
    rewrite H1999. lra.
  - intros i j Hij Hj.
    apply (linspace_increasing 0 100 1999 i j); [lra | |]; lia.
Qed.

Lemma two_runs_one_grid_witness :
  (3 < 1999)%nat /\ (3 < 7)%nat /\ (7 < 2000)%nat /\
  nth 4 Notebook.t 0 - nth 3 Notebook.t 0 = 100 / 1999 /\
  nth 3 Notebook.t 0 < nth 7 Notebook.t 0.
Proof.
  assert (H1 : (3 < 1999)%nat) by lia.
  assert (H2 : (3 < 7)%nat) by lia.
  assert (H3 : (7 < 2000)%nat) by lia.
  repeat (split; [assumption |]).
  pose proof two_runs_one_grid as (_ & _ & _ & _ & _ & _ & Hs & Hi).
  split; [exact (Hs 3%nat H1) | exact (Hi 3%nat 7%nat H2 H3)].
Defined.

(** ** The trajectory integrator *)

Lemma rk4_step_total : step_total rk4_step.
Proof.
  intros f Hf w y a b. unfold rk4_step.
  destruct (Hf y a) as [k1 E1]. rewrite E1. cbn [bind].
  destruct (Hf (vadd y (vscale ((b - a) / 2) k1)) (a + (b - a) / 2))
    as [k2 E2].
  rewrite E2. cbn [bind].
  destruct (Hf (vadd y (vscale ((b - a) / 2) k2)) (a + (b - a) / 2))
    as [k3 E3].
  rewrite E3. cbn [bind].
  destruct (Hf (vadd y (vscale (b - a) k3)) (a + (b - a))) as [k4 E4].
  rewrite E4. cbn [bind].
  eexists. reflexivity.
Qed.

Lemma splat_derivatives_total (args : params) :
  fst (fst (fst (fst args))) <> 0 ->
  forall y s, exists v, splat double_pendulum_derivatives y s args = Returned v.
Proof.
  destruct args as [[[[L1 L2] m1] m2] g]. simpl. intros H y s.
  now apply derivatives_total.
Qed.

Section IntegratorFacts.

Context {work : Type}.
Variable step :
  (state -> R -> result state) -> work -> state -> R -> R ->
  result (work * state).
Hypothesis step_returns : step_total step.

Variable f : state -> R -> result state.
Hypothesis f_returns : forall y s, exists v, f y s = Returned v.

(** One state is produced for each time sample after the first. *)
Lemma advance_returned (ts : list R) :
  forall (w : work) (y : state) (tk : R),
  exists tr, advance step f w y tk ts = Returned tr /\
             length tr = length ts.
Proof.
  induction ts as [| tnext rest IH]; intros w y tk.
  - exists []. split; reflexivity.
  - destruct (step_returns f f_returns w y tk tnext) as [wy Ewy].
    destruct (IH (fst wy) (snd wy) tnext) as (tr & Etr & Hlen).
    exists (snd wy :: tr). cbn [advance].
    rewrite Ewy. cbn [bind]. rewrite Etr. cbn [bind].
    split; [reflexivity | simpl; now rewrite Hlen].
Qed.

End IntegratorFacts.

(** C6.  For a derivative function that returns, every initial state and
    every non-empty sequence of time samples (strictly increasing or not),
    the integrator returns one state vector per time sample, the first of
    them the initial state itself; and for a sequence of length 1 it returns
    the initial state and nothing else. *)
Theorem trajectory_one_state_per_sample {work A : Type}
    (step : (state -> R -> result state) -> work -> state -> R -> R ->
            result (work * state))
    (w0 : work) (func : state -> R -> A -> result state) (args : A)
    (y0 : state) (t : list R)
    (Hstep : step_total step)
    (Hfunc : forall y s, exists v, func y s args = Returned v)
    (Ht : t <> []) :
  (exists tr, odeint step w0 func y0 t args = Returned tr /\
              length tr = length t /\
              nth_error tr 0 = Some y0) /\
  (forall t0, odeint step w0 func y0 [t0] args = Returned [y0]).
Proof.
  split.
  - destruct t as [| t0 ts]; [now elim Ht |].
    destruct (advance_returned step Hstep (fun y s => func y s args) Hfunc
                ts w0 y0 t0) as (tr & Etr & Hlen).
    exists (y0 :: tr). cbn [odeint]. rewrite Etr. cbn [bind].
    split; [reflexivity | split; [simpl; now rewrite Hlen | reflexivity]].
  - intros t0. reflexivity.
Qed.

Lemma notebook_args_L1 : fst (fst (fst (fst Notebook.args))) <> 0.
Proof. cbv [Notebook.args fst Notebook.L1]. lra. Qed.

Lemma notebook_t_nonempty : Notebook.t <> [].
Proof.
  intros E. apply (f_equal (@length R)) in E.
  unfold Notebook.t in E. rewrite linspace_length in E. discriminate E.
Qed.

Lemma trajectory_one_state_per_sample_witness :
  exists tr,
    Notebook.sol rk4_step tt = Returned tr /\
    length tr = length Notebook.t /\
    nth_error tr 0 = Some Notebook.y0.
Proof.
  exact (proj1 (trajectory_one_state_per_sample rk4_step tt
           (splat double_pendulum_derivatives) Notebook.args
           Notebook.y0 Notebook.t
           rk4_step_total
           (splat_derivatives_total Notebook.args notebook_args_L1)
           notebook_t_nonempty)).
Defined.

(** ** Calling the system: what is validated *)














(** ** The Cartesian projection *)

Lemma x1_map (L1 : R) (sol : list state) :
  x1 L1 sol = map (fun s => L1 * sin (item 0 s)) sol.
Proof. unfold x1, theta1. now rewrite map_map. Qed.

Lemma y1_map (L1 : R) (sol : list state) :
  y1 L1 sol = map (fun s => - L1 * cos (item 0 s)) sol.
Proof. unfold y1, theta1. now rewrite map_map. Qed.

Lemma x2_map (L1 L2 : R) (sol : list state) :
  x2 L1 L2 sol =
  map (fun s => L1 * sin (item 0 s) + L2 * sin (item 2 s)) sol.
Proof.
  unfold x2, np_add, theta2. rewrite x1_map.
  induction sol as [| s rest IH]; [reflexivity |].
  simpl. now rewrite IH.
Qed.

Lemma y2_map (L1 L2 : R) (sol : list state) :
  y2 L1 L2 sol =
  map (fun s => - L1 * cos (item 0 s) - L2 * cos (item 2 s)) sol.
Proof.
  unfold y2, np_sub, theta2. rewrite y1_map.
  induction sol as [| s rest IH]; [reflexivity |].
  simpl. now rewrite IH.
Qed.

Lemma projection_rows (L1 L2 : R) (sol : list state) :
  combine (combine (x1 L1 sol) (y1 L1 sol))
          (combine (x2 L1 L2 sol) (y2 L1 L2 sol)) =
  map (spec_projection L1 L2) sol.
Proof.
  rewrite x1_map, y1_map, x2_map, y2_map.
  induction sol as [| s rest IH]; [reflexivity |].
  simpl. rewrite IH. f_equal.
  unfold spec_projection. cbn [fst snd].
  apply f_equal. apply f_equal. ring.
Qed.

(** C7.  For all arm lengths and every trajectory, cell 5 places mass 1 at
    [(L1 * sin theta1, - L1 * cos theta1)] and mass 2 at that position plus
    [(L2 * sin theta2, - L2 * cos theta2)]; the arrays it builds are the
    per-sample projection mapped over the trajectory, so the entry at a
    sample depends on the state at that sample only. *)
Theorem projection_per_sample (L1 L2 : R) (sol sol_small : list state) :
  combine (combine (x1 L1 sol) (y1 L1 sol))
          (combine (x2 L1 L2 sol) (y2 L1 L2 sol)) =
  map (spec_projection L1 L2) sol /\
  combine (combine (x1_small L1 sol_small) (y1_small L1 sol_small))
          (combine (x2_small L1 L2 sol_small) (y2_small L1 L2 sol_small)) =
  map (spec_projection L1 L2) sol_small /\
  forall i, (i < length sol)%nat ->
    let s := nth i sol (0, 0, 0, 0) in
    nth i (x1 L1 sol) 0 = L1 * sin (item 0 s) /\
    nth i (y1 L1 sol) 0 = - L1 * cos (item 0 s) /\
    nth i (x2 L1 L2 sol) 0 = nth i (x1 L1 sol) 0 + L2 * sin (item 2 s) /\
    nth i (y2 L1 L2 sol) 0 = nth i (y1 L1 sol) 0 + - L2 * cos (item 2 s).
Proof.
  split; [apply projection_rows |].
  split; [exact (projection_rows L1 L2 sol_small) |].
  intros i Hi s.
  rewrite x1_map, y1_map, x2_map, y2_map.
  set (d := (0, 0, 0, 0) : state) in *.
  rewrite (nth_indep (map (fun s => L1 * sin (item 0 s)) sol) 0
             (L1 * sin (item 0 d))) by (rewrite length_map; exact Hi).
  rewrite (nth_indep (map (fun s => - L1 * cos (item 0 s)) sol) 0
             (- L1 * cos (item 0 d))) by (rewrite length_map; exact Hi).
  rewrite (nth_indep (map (fun s => L1 * sin (item 0 s) + L2 * sin (item 2 s))
                        sol) 0
             (L1 * sin (item 0 d) + L2 * sin (item 2 d)))
    by (rewrite length_map; exact Hi).
  rewrite (nth_indep (map (fun s => - L1 * cos (item 0 s) - L2 * cos (item 2 s))
                        sol) 0
             (- L1 * cos (item 0 d) - L2 * cos (item 2 d)))
    by (rewrite length_map; exact Hi).
  rewrite (map_nth (fun s => L1 * sin (item 0 s))),
          (map_nth (fun s => - L1 * cos (item 0 s))),
          (map_nth (fun s => L1 * sin (item 0 s) + L2 * sin (item 2 s))),
          (map_nth (fun s => - L1 * cos (item 0 s) - L2 * cos (item 2 s))).
  fold s. repeat split; ring.
Qed.

Lemma projection_per_sample_witness :
  (1 < length [Notebook.y0; Notebook.y0_small])%nat /\
  nth 1 (x2 1 1 [Notebook.y0; Notebook.y0_small]) 0 =
  nth 1 (x1 1 [Notebook.y0; Notebook.y0_small]) 0 +
  1 * sin (item 2 Notebook.y0_small).
Proof.
  assert (H : (1 < length [Notebook.y0; Notebook.y0_small])%nat)
    by (simpl; lia).
  split; [exact H |].
  exact (proj1 (proj2 (proj2
    (proj2 (proj2 (projection_per_sample 1 1
                     [Notebook.y0; Notebook.y0_small] []))
       1%nat H)))).
Defined.

(** * Further properties of the code *)

(** ** Symmetries of the equations of motion *)

Lemma quot_eq (n n' d d' : R) : n = n' -> d = d' -> n / d = n' / d'.
Proof. intros -> ->. reflexivity. Qed.

Lemma quot_scale (c n n' d d' : R) :
  n = c * n' -> d = d' -> n / d = c * (n' / d').
Proof. intros -> ->. unfold Rdiv. ring. Qed.

Ltac state_components :=
  apply f_equal;
  apply f_equal2; [apply f_equal2; [apply f_equal2 |] |].

(** X1.  Mirror symmetry: negating both angles and both angular velocities
    negates every component of the derivative (and a call that raises still
    raises). *)
Theorem derivatives_mirror (theta1 z1 theta2 z2 t L1 L2 m1 m2 g : R) :
  double_pendulum_derivatives (- theta1, - z1, - theta2, - z2) t
    L1 L2 m1 m2 g =
  (d <- double_pendulum_derivatives (theta1, z1, theta2, z2) t
          L1 L2 m1 m2 g ;;
   Returned (vscale (-1) d)).
Proof.
  destruct (Req_dec_T L1 0) as [E | N].
  - subst L1. now rewrite !derivatives_raised.
  - rewrite !(derivatives_returned _ _ _ _ _ _ _ N). cbn [bind].
    unfold spec_derivatives, vscale.
    replace (- theta1 - - theta2) with (- (theta1 - theta2)) by ring.
    rewrite cos_neg, !sin_neg.
    state_components; try ring; (apply quot_scale; ring).
Qed.

(** X2.  Time reversal: reversing both angular velocities reverses the two
    angle rates and leaves the two angular accelerations unchanged. *)
Theorem derivatives_time_reversal (theta1 z1 theta2 z2 t L1 L2 m1 m2 g : R) :
  double_pendulum_derivatives (theta1, - z1, theta2, - z2) t L1 L2 m1 m2 g =
  (d <- double_pendulum_derivatives (theta1, z1, theta2, z2) t
          L1 L2 m1 m2 g ;;
   Returned (- item 0 d, item 1 d, - item 2 d, item 3 d)).
Proof.
  destruct (Req_dec_T L1 0) as [E | N].
  - subst L1. now rewrite !derivatives_raised.
  - rewrite !(derivatives_returned _ _ _ _ _ _ _ N). cbn [bind].
    unfold spec_derivatives, item.
    state_components; try reflexivity; (apply quot_eq; ring).
Qed.



(** ** The rods and the drawn window *)

Lemma getitem_x1 (L1 : R) (sol : list state) (i : nat) :
  getitem (x1 L1 sol) i =
  option_map (fun s => L1 * sin (item 0 s)) (nth_error sol i).
Proof. unfold getitem. now rewrite x1_map, nth_error_map. Qed.

Lemma getitem_y1 (L1 : R) (sol : list state) (i : nat) :
  getitem (y1 L1 sol) i =
  option_map (fun s => - L1 * cos (item 0 s)) (nth_error sol i).
Proof. unfold getitem. now rewrite y1_map, nth_error_map. Qed.

Lemma getitem_x2 (L1 L2 : R) (sol : list state) (i : nat) :
  getitem (x2 L1 L2 sol) i =
  option_map (fun s => L1 * sin (item 0 s) + L2 * sin (item 2 s))
    (nth_error sol i).
Proof. unfold getitem. now rewrite x2_map, nth_error_map. Qed.

Lemma getitem_y2 (L1 L2 : R) (sol : list state) (i : nat) :
  getitem (y2 L1 L2 sol) i =
  option_map (fun s => - L1 * cos (item 0 s) - L2 * cos (item 2 s))
    (nth_error sol i).
Proof. unfold getitem. now rewrite y2_map, nth_error_map. Qed.

Lemma getitem_nth (a : list R) (i : nat) (v : R) :
  getitem a i = Some v -> nth i a 0 = v.
Proof. apply nth_error_nth. Qed.

(** The four coordinates of sample [i], read from row [i]. *)
Lemma projection_nth (L1 L2 : R) (sol : list state) (i : nat) (d : state) :
  (i < length sol)%nat ->
  nth i (x1 L1 sol) 0 = L1 * sin (item 0 (nth i sol d)) /\
  nth i (y1 L1 sol) 0 = - L1 * cos (item 0 (nth i sol d)) /\
  nth i (x2 L1 L2 sol) 0 =
    L1 * sin (item 0 (nth i sol d)) + L2 * sin (item 2 (nth i sol d)) /\
  nth i (y2 L1 L2 sol) 0 =
    - L1 * cos (item 0 (nth i sol d)) - L2 * cos (item 2 (nth i sol d)).
Proof.
  intros Hi. pose proof (nth_error_nth' sol d Hi) as E.
  repeat split; apply getitem_nth.
  - now rewrite getitem_x1, E.
  - now rewrite getitem_y1, E.
  - now rewrite getitem_x2, E.
  - now rewrite getitem_y2, E.
Qed.

Lemma sin_cos_sqr (x : R) : sin x * sin x + cos x * cos x = 1.
Proof. pose proof (sin2_cos2 x) as H. unfold Rsqr in H. exact H. Qed.

(** X7.  The rods keep their lengths: at every sample mass 1 is at distance
    [|L1|] from the pivot and mass 2 at distance [|L2|] from mass 1. *)
Theorem rods_keep_length (L1 L2 : R) (sol : list state) (i : nat)
    (Hi : (i < length sol)%nat) :
  nth i (x1 L1 sol) 0 ^ 2 + nth i (y1 L1 sol) 0 ^ 2 = L1 ^ 2 /\
  (nth i (x2 L1 L2 sol) 0 - nth i (x1 L1 sol) 0) ^ 2 +
  (nth i (y2 L1 L2 sol) 0 - nth i (y1 L1 sol) 0) ^ 2 = L2 ^ 2.
Proof.
  destruct (projection_nth L1 L2 sol i (0, 0, 0, 0) Hi)
    as (-> & -> & -> & ->).
  set (s := nth i sol (0, 0, 0, 0)).
  pose proof (sin_cos_sqr (item 0 s)) as H0.
  pose proof (sin_cos_sqr (item 2 s)) as H2.
  split.
  - replace ((L1 * sin (item 0 s)) ^ 2 + (- L1 * cos (item 0 s)) ^ 2)
      with (L1 ^ 2 * (sin (item 0 s) * sin (item 0 s) +
                      cos (item 0 s) * cos (item 0 s))) by ring.
    rewrite H0. ring.
  - replace ((L1 * sin (item 0 s) + L2 * sin (item 2 s) -
              L1 * sin (item 0 s)) ^ 2 +
             (- L1 * cos (item 0 s) - L2 * cos (item 2 s) -
              - L1 * cos (item 0 s)) ^ 2)
      with (L2 ^ 2 * (sin (item 2 s) * sin (item 2 s) +
                      cos (item 2 s) * cos (item 2 s))) by ring.
    rewrite H2. ring.
Qed.

Lemma rods_keep_length_witness :
  (1 < length [Notebook.y0; Notebook.y0_small])%nat /\
  nth 1 (x1 2 [Notebook.y0; Notebook.y0_small]) 0 ^ 2 +
  nth 1 (y1 2 [Notebook.y0; Notebook.y0_small]) 0 ^ 2 = 2 ^ 2.
Proof.
  assert (H : (1 < length [Notebook.y0; Notebook.y0_small])%nat)
    by (simpl; lia).
  split; [exact H |].
  exact (proj1 (rods_keep_length 2 3 [Notebook.y0; Notebook.y0_small] 1 H)).
Defined.

Lemma arm_bound (L u : R) : -1 <= u <= 1 -> - Rabs L <= L * u <= Rabs L.
Proof.
  intros [Hl Hu]. unfold Rabs. destruct (Rcase_abs L) as [Hn | Hp]; nra.
Qed.

(** Each coordinate of mass 1 is within [|L1|] of the pivot, each coordinate
    of mass 2 within [|L1| + |L2|]. *)
Lemma row_bounds (L1 L2 : R) (s : state) :
  (- Rabs L1 <= L1 * sin (item 0 s) <= Rabs L1) /\
  (- Rabs L1 <= - L1 * cos (item 0 s) <= Rabs L1) /\
  (- (Rabs L1 + Rabs L2) <=
     L1 * sin (item 0 s) + L2 * sin (item 2 s) <= Rabs L1 + Rabs L2) /\
  (- (Rabs L1 + Rabs L2) <=
     - L1 * cos (item 0 s) - L2 * cos (item 2 s) <= Rabs L1 + Rabs L2).
Proof.
  pose proof (arm_bound L1 _ (SIN_bound (item 0 s))) as A.
  pose proof (arm_bound L1 _ (COS_bound (item 0 s))) as B.
  pose proof (arm_bound L2 _ (SIN_bound (item 2 s))) as C.
  pose proof (arm_bound L2 _ (COS_bound (item 2 s))) as D.
  repeat split; lra.
Qed.

(** ** The animation *)

(** What [animate] does, read from row [i] of each trajectory and entry [i]
    of the time grid. *)
Lemma animate_rows (L1 L2 : R) (sol sol_small : list state) (t : list R)
    (i : nat) (a : artists) :
  animate L1 L2 sol sol_small t i a =
  match nth_error sol i with
  | None => (a, None)
  | Some s =>
      let data1 :=
        ([0; L1 * sin (item 0 s); L1 * sin (item 0 s) + L2 * sin (item 2 s)],
         [0; - L1 * cos (item 0 s);
          - L1 * cos (item 0 s) - L2 * cos (item 2 s)]) in
      match nth_error sol_small i with
      | None => (mkArtists data1 (line2 a) (time_text a), None)
      | Some s' =>
          let data2 :=
            ([0; L1 * sin (item 0 s');
              L1 * sin (item 0 s') + L2 * sin (item 2 s')],
             [0; - L1 * cos (item 0 s');
              - L1 * cos (item 0 s') - L2 * cos (item 2 s')]) in
          match nth_error t i with
          | None => (mkArtists data1 data2 (time_text a), None)
          | Some t_i => (mkArtists data1 data2 (TimeText t_i), Some tt)
          end
      end
  end.
Proof.
  unfold animate.
  change (x1_small L1 sol_small) with (x1 L1 sol_small).
  change (y1_small L1 sol_small) with (y1 L1 sol_small).
  change (x2_small L1 L2 sol_small) with (x2 L1 L2 sol_small).
  change (y2_small L1 L2 sol_small) with (y2 L1 L2 sol_small).
  rewrite !getitem_x1, !getitem_x2, !getitem_y1, !getitem_y2.
  unfold getitem.
  destruct (nth_error sol i) as [s |]; [| reflexivity].
  destruct (nth_error sol_small i) as [s' |]; [| reflexivity].
  destruct (nth_error t i) as [t_i |]; reflexivity.
Qed.

(** X8.  A frame number within all three arrays is drawn in full, whatever
    the artists held before: each line runs from the pivot to mass 1 to mass
    2 of row [i] of its trajectory, and the time stamp is given [t[i]]. *)
Theorem animate_draws_row (L1 L2 : R) (sol sol_small : list state)
    (t : list R) (i : nat) (a : artists)
    (Hsol : (i < length sol)%nat) (Hsmall : (i < length sol_small)%nat)
    (Ht : (i < length t)%nat) :
  let p := spec_projection L1 L2 (nth i sol (0, 0, 0, 0)) in
  let q := spec_projection L1 L2 (nth i sol_small (0, 0, 0, 0)) in
  animate L1 L2 sol sol_small t i a =
  (mkArtists
     ([0; fst (fst p); fst (snd p)], [0; snd (fst p); snd (snd p)])
     ([0; fst (fst q); fst (snd q)], [0; snd (fst q); snd (snd q)])
     (TimeText (nth i t 0)),
   Some tt).
Proof.
  intros p q. rewrite animate_rows.
  rewrite (nth_error_nth' sol (0, 0, 0, 0) Hsol).
  rewrite (nth_error_nth' sol_small (0, 0, 0, 0) Hsmall).
  rewrite (nth_error_nth' t 0 Ht).
  unfold p, q, spec_projection. cbn [fst snd].
  set (s := nth i sol (0, 0, 0, 0)). set (s' := nth i sol_small (0, 0, 0, 0)).
  replace (- L1 * cos (item 0 s) - L2 * cos (item 2 s))
    with (- L1 * cos (item 0 s) + - L2 * cos (item 2 s)) by ring.
  replace (- L1 * cos (item 0 s') - L2 * cos (item 2 s'))
    with (- L1 * cos (item 0 s') + - L2 * cos (item 2 s')) by ring.
  reflexivity.
Qed.

Lemma animate_draws_row_witness :
  animate 1 1 [Notebook.y0] [Notebook.y0_small] [0] 0 (init (mkArtists ([], []) ([], []) NoText)) =
  (mkArtists
     ([0; fst (fst (spec_projection 1 1 Notebook.y0));
       fst (snd (spec_projection 1 1 Notebook.y0))],
      [0; snd (fst (spec_projection 1 1 Notebook.y0));
       snd (snd (spec_projection 1 1 Notebook.y0))])
     ([0; fst (fst (spec_projection 1 1 Notebook.y0_small));
       fst (snd (spec_projection 1 1 Notebook.y0_small))],
      [0; snd (fst (spec_projection 1 1 Notebook.y0_small));
       snd (snd (spec_projection 1 1 Notebook.y0_small))])
     (TimeText 0),
   Some tt).
Proof.
  apply (animate_draws_row 1 1 [Notebook.y0] [Notebook.y0_small] [0] 0);
    simpl; lia.
Defined.

(** X9.  A frame number past the end of the first trajectory raises at the
    first lookup and leaves the artists as they were; one within the first
    trajectory but past the end of the second raises after [line1] has been
    given the polyline of row [i], so that frame is left half drawn, [line2]
    and the time stamp being as before; one within both trajectories but
    past the end of the time grid raises after both lines have been given
    their polylines, the time stamp being as before. *)
Theorem animate_index_error (L1 L2 : R) (sol sol_small : list state)
    (t : list R) (i : nat) (a : artists) :
  let p := spec_projection L1 L2 (nth i sol (0, 0, 0, 0)) in
  let q := spec_projection L1 L2 (nth i sol_small (0, 0, 0, 0)) in
  let data1 := ([0; fst (fst p); fst (snd p)], [0; snd (fst p); snd (snd p)]) in
  let data2 := ([0; fst (fst q); fst (snd q)], [0; snd (fst q); snd (snd q)]) in
  ((length sol <= i)%nat ->
   animate L1 L2 sol sol_small t i a = (a, None)) /\
  ((i < length sol)%nat -> (length sol_small <= i)%nat ->
   animate L1 L2 sol sol_small t i a =
   (mkArtists data1 (line2 a) (time_text a), None)) /\
  ((i < length sol)%nat -> (i < length sol_small)%nat ->
   (length t <= i)%nat ->
   animate L1 L2 sol sol_small t i a =
   (mkArtists data1 data2 (time_text a), None)).
Proof.
  intros p q data1 data2.
  assert (Hy : forall s : state,
             - L1 * cos (item 0 s) - L2 * cos (item 2 s) =
             - L1 * cos (item 0 s) + - L2 * cos (item 2 s))
    by (intros s; ring).
  split; [| split].
  - intros H. rewrite animate_rows.
    now rewrite (proj2 (nth_error_None sol i) H).
  - intros H1 H2. rewrite animate_rows.
    rewrite (nth_error_nth' sol (0, 0, 0, 0) H1).
    rewrite (proj2 (nth_error_None sol_small i) H2).
    unfold data1, p, spec_projection. cbn [fst snd].
    now rewrite Hy.
  - intros H1 H2 H3. rewrite animate_rows.
    rewrite (nth_error_nth' sol (0, 0, 0, 0) H1).
    rewrite (nth_error_nth' sol_small (0, 0, 0, 0) H2).
    rewrite (proj2 (nth_error_None t i) H3).
    unfold data1, data2, p, q, spec_projection. cbn [fst snd].
    now rewrite !Hy.
Qed.

Lemma animate_index_error_witness :
  (animate 1 1 [Notebook.y0] [Notebook.y0_small] [0] 1
     (mkArtists ([], []) ([], []) NoText) =
   (mkArtists ([], []) ([], []) NoText, None)) /\
  (animate 1 1 [Notebook.y0; Notebook.y0] [Notebook.y0_small] [0] 1
     (mkArtists ([], []) ([], []) NoText) =
   (mkArtists
      ([0; fst (fst (spec_projection 1 1 Notebook.y0));
        fst (snd (spec_projection 1 1 Notebook.y0))],
       [0; snd (fst (spec_projection 1 1 Notebook.y0));
        snd (snd (spec_projection 1 1 Notebook.y0))])
      ([], []) NoText, None)) /\
  (animate 1 1 [Notebook.y0] [Notebook.y0_small] [] 0
     (mkArtists ([], []) ([], []) NoText) =
   (mkArtists
      ([0; fst (fst (spec_projection 1 1 Notebook.y0));
        fst (snd (spec_projection 1 1 Notebook.y0))],
       [0; snd (fst (spec_projection 1 1 Notebook.y0));
        snd (snd (spec_projection 1 1 Notebook.y0))])
      ([0; fst (fst (spec_projection 1 1 Notebook.y0_small));
        fst (snd (spec_projection 1 1 Notebook.y0_small))],
       [0; snd (fst (spec_projection 1 1 Notebook.y0_small));
        snd (snd (spec_projection 1 1 Notebook.y0_small))])
      NoText, None)).
Proof.
  split; [| split].
  - apply (proj1 (animate_index_error 1 1 [Notebook.y0] [Notebook.y0_small]
                    [0] 1 (mkArtists ([], []) ([], []) NoText))).
    simpl. lia.
  - apply (proj1 (proj2 (animate_index_error 1 1 [Notebook.y0; Notebook.y0]
                           [Notebook.y0_small] [0] 1
                           (mkArtists ([], []) ([], []) NoText))));
      simpl; lia.
  - apply (proj2 (proj2 (animate_index_error 1 1 [Notebook.y0]
                           [Notebook.y0_small] [] 0
                           (mkArtists ([], []) ([], []) NoText))));
      simpl; lia.
Defined.

Lemma inside_three (lo hi u v : R) :
  lo <= 0 <= hi -> lo <= u <= hi -> lo <= v <= hi ->
  Forall (fun x => lo <= x <= hi) [0; u; v].
Proof.
  intros H0 Hu Hv.
  apply Forall_cons; [exact H0 |].
  apply Forall_cons; [exact Hu |].
  apply Forall_cons; [exact Hv | apply Forall_nil].
Qed.

(** X10.  Nothing is drawn outside the axes: when the two arm lengths add up
    to at most 2 in absolute value, as the notebook's do, every point of
    every frame that [animate] draws lies within [xlim] and [ylim]. *)
Theorem frames_inside_window (L1 L2 : R) (sol sol_small : list state)
    (t : list R) (i : nat) (a a' : artists)
    (HL : Rabs L1 + Rabs L2 <= 2)
    (Hdrawn : animate L1 L2 sol sol_small t i a = (a', Some tt)) :
  Forall (fun x => fst xlim <= x <= snd xlim) (fst (line1 a')) /\
  Forall (fun y => fst ylim <= y <= snd ylim) (snd (line1 a')) /\
  Forall (fun x => fst xlim <= x <= snd xlim) (fst (line2 a')) /\
  Forall (fun y => fst ylim <= y <= snd ylim) (snd (line2 a')).
Proof.
  rewrite animate_rows in Hdrawn.
  destruct (nth_error sol i) as [s |]; [| discriminate Hdrawn].
  destruct (nth_error sol_small i) as [s' |]; [| discriminate Hdrawn].
  destruct (nth_error t i) as [t_i |]; [| discriminate Hdrawn].
  injection Hdrawn as <-. cbn [line1 line2 fst snd xlim ylim].
  pose proof (Rabs_pos L1) as P1. pose proof (Rabs_pos L2) as P2.
  destruct (row_bounds L1 L2 s) as (A & B & C & D).
  destruct (row_bounds L1 L2 s') as (A' & B' & C' & D').
  repeat split; apply inside_three; lra.
Qed.

Lemma frames_inside_window_witness :
  Rabs Notebook.L1 + Rabs Notebook.L2 <= 2 /\
  Forall (fun x => fst xlim <= x <= snd xlim)
    (fst (line1 (fst (animate Notebook.L1 Notebook.L2
                        [Notebook.y0] [Notebook.y0_small] [0] 0
                        (mkArtists ([], []) ([], []) NoText))))).
Proof.
  assert (H : Rabs Notebook.L1 + Rabs Notebook.L2 <= 2).
  { unfold Notebook.L1, Notebook.L2. rewrite Rabs_pos_eq by lra. lra. }
  split; [exact H |].
  exact (proj1 (frames_inside_window Notebook.L1 Notebook.L2
                  [Notebook.y0] [Notebook.y0_small] [0] 0
                  (mkArtists ([], []) ([], []) NoText) _ H eq_refl)).
Defined.

(** ** From the two runs to the frames *)





